(** * The wizard step-state machine of [aiidalab_widgets_base/wizard.py]

    A shallow embedding of [WizardAppWidgetStep] and [WizardAppWidget]:
    the step states, the accordion titles, the enablement of the three
    header buttons, the selection handlers, auto-advance and reset.

    Python exceptions are the [Raise] results of a small error monad.
    The traits of ipywidgets and traitlets that the class relies on
    (the bounds validator of [Accordion.selected_index], the link between
    the accordion's and the wizard's [selected_index], observers that fire
    only when a trait's value changes) are written out where they act. *)

From Stdlib Require Import ZArith QArith Qround Lia Ascii String.
From stdpp Require Import base option list gmap strings pretty.

(** ** Python runtime *)

Module Py.

Inductive exn : Set :=
| ValueError | AttributeError | AssertionError
| TraitError | TypeError | IndexError.

Inductive result (A : Type) : Type :=
| Ok (a : A)
| Raise (e : exn).
Arguments Ok {A} a.
Arguments Raise {A} e.

Definition bind {A B : Type} (m : result A) (k : A -> result B) : result B :=
  match m with
  | Ok a => k a
  | Raise e => Raise e
  end.

(** [seq_[i]] resolves a tuple index: negative indices count from the end,
    anything outside [-n, n) is an [IndexError]. *)
Definition index_of (n : nat) (i : Z) : result nat :=
  if (0 <=? i)%Z && (i <? Z.of_nat n)%Z then Ok (Z.to_nat i)
  else if (- Z.of_nat n <=? i)%Z && (i <? 0)%Z then Ok (Z.to_nat (Z.of_nat n + i))
  else Raise IndexError.

Definition getitem {A : Type} (l : list A) (i : Z) : result A :=
  bind (index_of (length l) i)
       (fun pos => match l !! pos with
                   | Some x => Ok x
                   | None => Raise IndexError
                   end).

(** [range(a, b)] *)
Definition range (a b : Z) : list Z :=
  map (fun k => (a + Z.of_nat k)%Z) (seq 0 (Z.to_nat (b - a))).

(** [str.upper()], on ASCII letters; every other byte is kept. *)
Definition upper_ascii (c : ascii) : ascii :=
  let n := nat_of_ascii c in
  if (97 <=? n)%nat && (n <=? 122)%nat then ascii_of_nat (n - 32) else c.

Fixpoint upper (s : string) : string :=
  match s with
  | EmptyString => EmptyString
  | String c rest => String (upper_ascii c) (upper rest)
  end.

(** Truth value of what a function returns when it may fall off its end:
    [None] is falsy. *)
Definition truthy (r : option bool) : bool :=
  match r with
  | Some b => b
  | None => false
  end.

End Py.

Import Py.

Notation "x <- m ;; k" := (Py.bind m (fun x => k))
  (at level 100, m at next level, right associativity).

(** ** One step of the wizard *)

Module WizardAppWidgetStep.

Inductive State : Set :=
| INIT | CONFIGURED | READY | ACTIVE | SUCCESS | FAIL.

(** The codes of the enumeration: all error states have negative codes. *)
Definition code (s : State) : Z :=
  match s with
  | INIT => 0 | CONFIGURED => 1 | READY => 2
  | ACTIVE => 3 | SUCCESS => 4 | FAIL => -1
  end.

Definition name (s : State) : string :=
  match s with
  | INIT => "INIT" | CONFIGURED => "CONFIGURED" | READY => "READY"
  | ACTIVE => "ACTIVE" | SUCCESS => "SUCCESS" | FAIL => "FAIL"
  end.

#[global] Instance State_eq_dec : EqDecision State.
Proof. solve_decision. Defined.

(** What the [state] attribute of a step may hold: a member of [State],
    or some other hashable value (a raw string, a member of another
    enumeration), known to the wizard only through its [str()]. *)
Inductive value : Set :=
| Member (s : State)
| Foreign (repr : string).

#[global] Instance value_eq_dec : EqDecision value.
Proof. solve_decision. Defined.

(** [str(v)] *)
Definition str (v : value) : string :=
  match v with
  | Member s => "State." +:+ name s
  | Foreign repr => repr
  end.

(** [v is State.s], [v == State.s]: members of an enumeration are
    singletons, and no foreign value equals one. *)
Definition is_ (v : value) (s : State) : bool :=
  match v with
  | Member s' => bool_decide (s' = s)
  | Foreign _ => false
  end.

Record t : Set := Build {
  state : value;
  auto_advance : bool;
  has_reset : bool   (* hasattr(self, "reset") *)
}.

Definition can_reset (self : t) : bool := has_reset self.

Definition with_state (v : value) (self : t) : t :=
  {| state := v; auto_advance := auto_advance self; has_reset := has_reset self |}.

End WizardAppWidgetStep.

(** ** The wizard *)

Module WizardAppWidget.

Import WizardAppWidgetStep.
Abbreviation Step := WizardAppWidgetStep.t.

Inductive icon_set : Set :=
| Still (glyph : string)
| Frames (glyphs : list string).

Definition ICONS (key : State) : icon_set :=
  match key with
  | INIT => Still "○"
  | READY => Still "◎"
  | CONFIGURED => Still "●"
  | ACTIVE => Frames ["◜"; "◝"; "◞"; "◟"]
  | SUCCESS => Still "✓"
  | FAIL => Still "×"
  end.

(** [item[int((t * len(item) % len(item)))]]: scaling a float by the
    length, the remainder and the truncation are all exact, so the clock
    reading is taken as a rational. *)
Definition frame (now : Q) (glyphs : list string) : string :=
  let n := Z.of_nat (length glyphs) in
  nth (Z.to_nat (Qfloor (now * inject_Z n) mod n)) glyphs "".

(** [icons()], with [now] the value [time()] returned. *)
Definition icons (now : Q) (key : State) : string :=
  match ICONS key with
  | Still glyph => glyph
  | Frames glyphs => frame now glyphs
  end.

(** [icons().get(state, str(state).upper())] *)
Definition icon_of (now : Q) (v : value) : string :=
  let fallback := upper (str v) in
  match v with
  | Member key => icons now key
  | Foreign _ => fallback
  end.

Record t : Type := Build {
  titles : list string;                 (* self.titles *)
  children : list Step;                 (* self.accordion.children *)
  selected_index : option Z;            (* self.accordion.selected_index,
                                           linked with self.selected_index *)
  accordion_titles : gmap nat string;   (* what set_title has stored *)
  back_button_disabled : bool;
  next_button_disabled : bool;
  reset_button_disabled : bool
}.

Definition set_title (i : nat) (title : string) (self : t) : t :=
  {| titles := titles self; children := children self;
     selected_index := selected_index self;
     accordion_titles := <[i := title]> (accordion_titles self);
     back_button_disabled := back_button_disabled self;
     next_button_disabled := next_button_disabled self;
     reset_button_disabled := reset_button_disabled self |}.

Definition with_buttons (back next reset : bool) (self : t) : t :=
  {| titles := titles self; children := children self;
     selected_index := selected_index self;
     accordion_titles := accordion_titles self;
     back_button_disabled := back;
     next_button_disabled := next;
     reset_button_disabled := reset |}.

Definition with_selected_index (v : option Z) (self : t) : t :=
  {| titles := titles self; children := children self;
     selected_index := v;
     accordion_titles := accordion_titles self;
     back_button_disabled := back_button_disabled self;
     next_button_disabled := next_button_disabled self;
     reset_button_disabled := reset_button_disabled self |}.

Definition with_children (steps : list Step) (self : t) : t :=
  {| titles := titles self; children := steps;
     selected_index := selected_index self;
     accordion_titles := accordion_titles self;
     back_button_disabled := back_button_disabled self;
     next_button_disabled := next_button_disabled self;
     reset_button_disabled := reset_button_disabled self |}.

(** f"{icon} Step {i+1}: {title}" *)
Definition title_text (icon : string) (i : nat) (title : string) : string :=
  icon +:+ " Step " +:+ pretty (i + 1) +:+ ": " +:+ title.

(** The loop of [_update_titles] from position [i] on; [clock k] is what
    [time()] returns in the iteration for step [k]. *)
Fixpoint update_titles_from (clock : nat -> Q) (i : nat)
    (items : list (string * Step)) (self : t) : t :=
  match items with
  | [] => self
  | (title, widget) :: rest =>
      let icon := icon_of (clock i) (state widget) in
      update_titles_from clock (S i) rest
        (set_title i (title_text icon i title) self)
  end.

Definition _update_titles (clock : nat -> Q) (self : t) : t :=
  update_titles_from clock 0 (zip (titles self) (children self)) self.

Definition can_reset (self : t) : option bool :=
  let steps := children self in
  if existsb (fun step => negb (WizardAppWidgetStep.can_reset step)) steps
  then Some false
  else if existsb (fun step => negb (is_ (state step) INIT)) steps
  then Some true
  else None.

Definition _update_buttons (self : t) : result t :=
  match selected_index self with
  | None => Ok (with_buttons true true true self)
  | Some index =>
      let first_step_selected := (index =? 0)%Z in
      let last_step_selected :=
        (index + 1 =? Z.of_nat (length (children self)))%Z in
      selected_widget <- getitem (children self) index ;;
      let st := state selected_widget in
      Ok (with_buttons
            (first_step_selected
             || (is_ st ACTIVE || is_ st SUCCESS || is_ st FAIL))
            (last_step_selected || negb (is_ st SUCCESS))
            (negb (truthy (can_reset self)))
            self)
  end.

(** The validator of the accordion's [selected_index] trait. *)
Definition valid_index (v : option Z) (self : t) : bool :=
  match v with
  | None => true
  | Some i => (0 <=? i)%Z && (i <? Z.of_nat (length (children self)))%Z
  end.

(** [self.accordion.selected_index = v]: the value is validated; when it
    differs from the old one the link copies it to the wizard's own trait,
    whose observer [_observe_selected_index] recomputes the buttons.  Under
    [hold_trait_notifications] the observer runs when the block is left;
    nothing reads the buttons in between. *)
Definition set_selected_index (v : option Z) (self : t) : result t :=
  if valid_index v self then
    if decide (v = selected_index self) then Ok self
    else _update_buttons (with_selected_index v self)
  else Raise TraitError.

Definition _consider_auto_advance (self : t) : result t :=
  match selected_index self with
  | None => Raise TypeError   (* None + 1 *)
  | Some index =>
      let last_step_selected :=
        (index + 1 =? Z.of_nat (length (children self)))%Z in
      selected_widget <- getitem (children self) index ;;
      if auto_advance selected_widget
         && negb last_step_selected
         && is_ (state selected_widget) SUCCESS
      then set_selected_index (Some (index + 1)%Z) self
      else Ok self
  end.

Definition _update_step_state (clock : nat -> Q) (self : t) : result t :=
  self <- _update_buttons (_update_titles clock self) ;;
  _consider_auto_advance self.

(** Step [j] assigns [v] to its [state] trait: observers are notified
    only when the value changes. *)
Definition assign_state (clock : nat -> Q) (j : nat) (v : value)
    (self : t) : result t :=
  match children self !! j with
  | None => Ok self
  | Some step =>
      if decide (state step = v) then Ok self
      else _update_step_state clock
             (with_children (<[j := with_state v step]> (children self)) self)
  end.

Definition _on_click_back_button (self : t) : result t :=
  match selected_index self with
  | None => Raise TypeError
  | Some index => set_selected_index (Some (index - 1)%Z) self
  end.

Definition _on_click_next_button (self : t) : result t :=
  match selected_index self with
  | None => Raise TypeError
  | Some index => set_selected_index (Some (index + 1)%Z) self
  end.

(** *** Reset

    What a step's own [reset()] does is the application's business: it is
    a parameter, acting on the whole wizard since a step that changes its
    state reaches the wizard through the observers.  The list of calls is
    bookkeeping of the model: the positions of the steps whose [reset()]
    was invoked, oldest first. *)
Section Reset.

Variable step_reset : nat -> t -> result t.

Fixpoint reset_loop (indices : list Z) (calls : list nat) (self : t)
    : result (t * list nat) :=
  match indices with
  | [] => Ok (self, calls)
  | index :: rest =>
      pos <- index_of (length (children self)) index ;;
      match children self !! pos with
      | None => Raise IndexError
      | Some widget =>
          if has_reset widget then
            self <- step_reset pos self ;;
            reset_loop rest (calls ++ [pos]) self
          else reset_loop rest calls self
      end
  end.

Definition reset (step : Z) (self : t) : result (t * list nat) :=
  reset_loop
    (reverse (range step (Z.of_nat (length (children self))))) [] self.

Definition _on_click_reset_button (self : t) : result t :=
  r <- reset 0 self ;;
  set_selected_index (Some 0%Z) r.1.

End Reset.

(** *** Construction *)

(** What may be passed as the widget of a step: a widget with the
    observable [state] trait, a widget with a plain [state] attribute that
    is no trait, or a widget with no [state] at all. *)
Inductive widget : Set :=
| StepWidget (step : Step)
| AttrWidget (v : value)
| PlainWidget.

(** [widget.state] *)
Definition widget_state (wd : widget) : result value :=
  match wd with
  | StepWidget step => Ok (state step)
  | AttrWidget v => Ok v
  | PlainWidget => Raise AttributeError
  end.

(** The first [_update_titles()] of the constructor, before any widget
    was checked for the trait: it only needs [widget.state] to exist. *)
Fixpoint first_titles (widgets : list widget) : result unit :=
  match widgets with
  | [] => Ok tt
  | wd :: rest => _ <- widget_state wd ;; first_titles rest
  end.

(** [assert widget.has_trait("state")] for each widget. *)
Fixpoint observed_steps (widgets : list widget) : result (list Step) :=
  match widgets with
  | [] => Ok []
  | StepWidget step :: rest =>
      steps <- observed_steps rest ;; Ok (step :: steps)
  | _ :: _ => Raise AssertionError
  end.

(** The constructor.  The spinner thread it starts runs [_update_titles]
    every tenth of a second from then on; the buttons are created disabled
    and the accordion opens on its first child. *)
Definition __init__ (clock : nat -> Q) (steps : list (string * widget))
    : result t :=
  if (length steps <? 2)%nat then Raise ValueError
  else
    let titles := map fst steps in
    let widgets := map snd steps in
    _ <- first_titles widgets ;;
    children <- observed_steps widgets ;;
    Ok (_update_titles clock
          {| titles := titles; children := children;
             selected_index := Some 0%Z;
             accordion_titles := ∅;
             back_button_disabled := true;
             next_button_disabled := true;
             reset_button_disabled := true |}).

End WizardAppWidget.

Import WizardAppWidgetStep WizardAppWidget.

(** ** Descriptions used in the statements *)

(** Where one run of the check leaves the selection. *)
Definition auto_advance_target (steps : list Step) (i : Z) : Z :=
  match steps !! Z.to_nat i with
  | Some step =>
      if auto_advance step
         && negb (i + 1 =? Z.of_nat (length steps))%Z
         && is_ (state step) SUCCESS
      then (i + 1)%Z else i
  | None => i
  end.

(** The selection the specification describes for one event: from [i],
    keep advancing while the step reached is auto-advance, SUCCESS and not
    the last one. *)
Fixpoint chain_from (fuel : nat) (steps : list Step) (i : Z) : Z :=
  match fuel with
  | O => i
  | S fuel =>
      if (auto_advance_target steps i =? i)%Z then i
      else chain_from fuel steps (auto_advance_target steps i)
  end.

Definition chained_selection (steps : list Step) (i : Z) : Z :=
  chain_from (length steps) steps i.

(** The three buttons are as the last recomputation left them. *)
Definition buttons_recomputed (self : WizardAppWidget.t) : Prop :=
  _update_buttons self = Ok self.

(** [k] state-change notifications in a row, the steps staying as they are. *)
Fixpoint notified (clock : nat -> Q) (k : nat) (self : WizardAppWidget.t)
    : result WizardAppWidget.t :=
  match k with
  | O => Ok self
  | S k => self <- _update_step_state clock self ;; notified clock k self
  end.

(** The position [children[i]] denotes among [n] steps, for [i] in [-n, n). *)
Definition position (n : nat) (i : Z) : nat :=
  if (0 <=? i)%Z then Z.to_nat i else Z.to_nat (Z.of_nat n + i).

(** Whether the step at a position has a [reset]. *)
Definition has_reset_at (steps : list Step) (pos : nat) : bool :=
  match steps !! pos with
  | Some step => has_reset step
  | None => false
  end.

(** ** Sample wizards *)

Definition step_in (v : value) (auto : bool) : Step :=
  {| state := v; auto_advance := auto; has_reset := true |}.

Definition at_rest : nat -> Q := fun _ => (7 # 4)%Q.

Definition wizard_of (steps : list Step) (sel : option Z) : WizardAppWidget.t :=
  {| titles := ["Structure"; "Configure"; "Results"];
     children := steps;
     selected_index := sel;
     accordion_titles := ∅;
     back_button_disabled := true;
     next_button_disabled := true;
     reset_button_disabled := true |}.

Definition three_auto : list (string * widget) :=
  [("Structure", StepWidget (step_in (Member INIT) true));
   ("Configure", StepWidget (step_in (Member INIT) true));
   ("Results", StepWidget (step_in (Member INIT) true))].

(** A [reset()] that puts its step back to INIT, which the wizard hears of
    through the observers. *)
Definition notifying_reset (pos : nat) (self : WizardAppWidget.t)
    : result WizardAppWidget.t :=
  assign_state at_rest pos (Member INIT) self.

(** Some step is selected. *)
Definition step_selected (self : WizardAppWidget.t) : Prop :=
  exists i, selected_index self = Some i /\
            (0 <= i < Z.of_nat (length (children self)))%Z.

(** * Properties *)

(** ** Indexing *)

Lemma getitem_in_range {A : Type} (l : list A) (i : Z) :
  (0 <= i < Z.of_nat (length l))%Z ->
  exists x, l !! Z.to_nat i = Some x /\ getitem l i = Ok x.
Proof.
  intros Hi.
  destruct (lookup_lt_is_Some_2 l (Z.to_nat i)) as [x Hx]; [lia|].
  exists x. split; [exact Hx|].
  unfold getitem, index_of.
  replace (0 <=? i)%Z with true by (symmetry; apply Z.leb_le; lia).
  replace (i <? Z.of_nat (length l))%Z with true by (symmetry; apply Z.ltb_lt; lia).
  simpl. now rewrite Hx.
Qed.

Lemma is_Member (v : value) (s : State) : is_ v s = true <-> v = Member s.
Proof.
  destruct v as [s'|repr]; simpl.
  - rewrite bool_decide_eq_true. split; congruence.
  - split; discriminate.
Qed.

Lemma existsb_Exists {A : Type} (f : A -> bool) (l : list A) :
  existsb f l = true <-> Exists (fun x => f x = true) l.
Proof.
  induction l as [|x l IH]; simpl.
  - split; [discriminate | intros H; inversion H].
  - rewrite orb_true_iff, IH, Exists_cons. tauto.
Qed.

Lemma existsb_Forall {A : Type} (f : A -> bool) (l : list A) :
  existsb f l = false <-> Forall (fun x => f x = false) l.
Proof.
  induction l as [|x l IH]; simpl.
  - split; [constructor | reflexivity].
  - rewrite orb_false_iff, IH, Forall_cons. tauto.
Qed.

(** ** States *)

Lemma fail_only_negative (s : State) : (code s < 0)%Z <-> s = FAIL.
Proof. destruct s; simpl; split; (lia || discriminate || reflexivity). Qed.

(** ** Icons *)

(** The animated icon is always one of its frames: the index computed from
    the clock is within the list. *)
Lemma frame_is_glyph (now : Q) (glyphs : list string) :
  glyphs <> [] -> In (frame now glyphs) glyphs.
Proof.
  intros Hne. unfold frame. apply nth_In.
  assert (Hpos : (0 < Z.of_nat (length glyphs))%Z).
  { destruct glyphs; [congruence | simpl; lia]. }
  pose proof (Z.mod_pos_bound
                (Qfloor (now * inject_Z (Z.of_nat (length glyphs))))
                (Z.of_nat (length glyphs)) Hpos).
  lia.
Qed.

Lemma icons_ACTIVE (now : Q) :
  In (icons now ACTIVE) ["◜"; "◝"; "◞"; "◟"].
Proof. apply frame_is_glyph. discriminate. Qed.

(** ** Frame lemmas *)

Lemma update_titles_from_frame clock i items self :
  let self' := update_titles_from clock i items self in
  titles self' = titles self /\ children self' = children self
  /\ selected_index self' = selected_index self
  /\ back_button_disabled self' = back_button_disabled self
  /\ next_button_disabled self' = next_button_disabled self
  /\ reset_button_disabled self' = reset_button_disabled self.
Proof.
  revert i self. induction items as [|[title wd] rest IH]; intros i self; simpl.
  - repeat split.
  - specialize (IH (S i) (set_title i (title_text (icon_of (clock i) (state wd)) i title) self)).
    simpl in IH. exact IH.
Qed.

Lemma update_titles_frame clock self :
  selected_index (_update_titles clock self) = selected_index self /\
  children (_update_titles clock self) = children self /\
  titles (_update_titles clock self) = titles self.
Proof.
  unfold _update_titles.
  destruct (update_titles_from_frame clock 0 (zip (titles self) (children self)) self)
    as (Ht & Hc & Hs & _).
  repeat split; assumption.
Qed.

Lemma update_buttons_frame self self' :
  _update_buttons self = Ok self' ->
  titles self' = titles self /\ children self' = children self
  /\ selected_index self' = selected_index self
  /\ accordion_titles self' = accordion_titles self.
Proof.
  unfold _update_buttons. destruct (selected_index self) as [index|] eqn:Hsel.
  - destruct (getitem (children self) index) as [wd|e]; simpl; [|discriminate].
    intros [= <-]. simpl. now rewrite Hsel.
  - intros [= <-]. simpl. now rewrite Hsel.
Qed.

Lemma update_buttons_in_range self (i : Z) :
  selected_index self = Some i ->
  (0 <= i < Z.of_nat (length (children self)))%Z ->
  exists step, children self !! Z.to_nat i = Some step /\
    _update_buttons self =
      Ok (with_buttons
            ((i =? 0)%Z || (is_ (state step) ACTIVE || is_ (state step) SUCCESS
                            || is_ (state step) FAIL))
            ((i + 1 =? Z.of_nat (length (children self)))%Z
             || negb (is_ (state step) SUCCESS))
            (negb (truthy (can_reset self))) self).
Proof.
  intros Hsel Hi.
  destruct (getitem_in_range (children self) i Hi) as (step & Hlk & Hget).
  exists step. split; [exact Hlk|].
  unfold _update_buttons. rewrite Hsel, Hget. reflexivity.
Qed.

Lemma set_selected_index_moves self (i j : Z) :
  selected_index self = Some i -> j <> i ->
  (0 <= j < Z.of_nat (length (children self)))%Z ->
  exists self', set_selected_index (Some j) self = Ok self' /\
    selected_index self' = Some j /\ children self' = children self
    /\ _update_buttons (with_selected_index (Some j) self) = Ok self'.
Proof.
  intros Hsel Hne Hj.
  unfold set_selected_index, valid_index.
  replace (0 <=? j)%Z with true by (symmetry; apply Z.leb_le; lia).
  replace (j <? Z.of_nat (length (children self)))%Z with true
    by (symmetry; apply Z.ltb_lt; lia).
  simpl. rewrite Hsel.
  destruct (decide (Some j = Some i)) as [Heq|_]; [congruence|].
  destruct (update_buttons_in_range (with_selected_index (Some j) self) j)
    as (step & _ & Hupd); [reflexivity | exact Hj |].
  eexists. split; [exact Hupd|]. repeat split. exact Hupd.
Qed.

(** ** Navigation buttons *)





(** C7. When no step is selected, recomputing the buttons succeeds and
    leaves Back, Next and Reset all disabled, whatever they were before. *)
Theorem unset_selection_disables_buttons (self : WizardAppWidget.t) :
  selected_index self = None ->
  exists self',
    _update_buttons self = Ok self' /\
    back_button_disabled self' = true /\
    next_button_disabled self' = true /\
    reset_button_disabled self' = true.
Proof.
  intros Hsel. unfold _update_buttons. rewrite Hsel.
  eexists. split; [reflexivity|]. simpl. repeat split.
Qed.

Lemma unset_selection_disables_buttons_witness :
  exists self',
    _update_buttons
      (with_buttons false false false
         (wizard_of [step_in (Member SUCCESS) true; step_in (Member READY) false] None))
      = Ok self' /\
    back_button_disabled self' = true /\
    next_button_disabled self' = true /\
    reset_button_disabled self' = true.
Proof.
  apply (unset_selection_disables_buttons
           (with_buttons false false false
              (wizard_of [step_in (Member SUCCESS) true; step_in (Member READY) false] None))).
  reflexivity.
Defined.

(** ** The buttons between events

    The flags of the buttons are those of the last recomputation: every
    state-change event and every change of the selection ends with one, and
    a wizard built over steps that are all in state INIT starts with the
    flags the recomputation would give. *)

Lemma update_buttons_idempotent self self' :
  _update_buttons self = Ok self' -> buttons_recomputed self'.
Proof.
  unfold buttons_recomputed, _update_buttons.
  destruct (selected_index self) as [index|] eqn:Hsel.
  - destruct (getitem (children self) index) as [wd|e] eqn:Hget; simpl; [|discriminate].
    intros [= <-]. simpl. rewrite Hsel, Hget. reflexivity.
  - intros [= <-]. simpl. rewrite Hsel. reflexivity.
Qed.

Lemma set_selected_index_recomputed v self self' :
  buttons_recomputed self ->
  set_selected_index v self = Ok self' -> buttons_recomputed self'.
Proof.
  intros Hrec. unfold set_selected_index.
  destruct (valid_index v self); [|discriminate].
  destruct (decide (v = selected_index self)).
  - now intros [= <-].
  - apply update_buttons_idempotent.
Qed.

Lemma update_step_state_recomputed clock self self' :
  _update_step_state clock self = Ok self' -> buttons_recomputed self'.
Proof.
  unfold _update_step_state.
  destruct (_update_buttons (_update_titles clock self)) as [self1|e] eqn:Hupd;
    simpl; [|discriminate].
  apply update_buttons_idempotent in Hupd.
  unfold _consider_auto_advance.
  destruct (selected_index self1) as [index|]; [|discriminate].
  destruct (getitem (children self1) index) as [wd|e]; simpl; [|discriminate].
  destruct (auto_advance wd && negb (index + 1 =? Z.of_nat (length (children self1)))%Z
            && is_ (state wd) SUCCESS).
  - now apply set_selected_index_recomputed.
  - now intros [= <-].
Qed.

Lemma assign_state_recomputed clock j v self self' :
  buttons_recomputed self ->
  assign_state clock j v self = Ok self' -> buttons_recomputed self'.
Proof.
  intros Hrec. unfold assign_state.
  destruct (children self !! j) as [step|]; [|now intros [= <-]].
  destruct (decide (state step = v)); [now intros [= <-]|].
  apply update_step_state_recomputed.
Qed.

Lemma click_recomputed self self' :
  buttons_recomputed self ->
  _on_click_next_button self = Ok self' \/ _on_click_back_button self = Ok self' ->
  buttons_recomputed self'.
Proof.
  unfold _on_click_next_button, _on_click_back_button.
  intros Hrec [H|H]; destruct (selected_index self); try discriminate;
    eapply set_selected_index_recomputed; eassumption.
Qed.

(** X14. A wizard built over steps that are all in state INIT starts with
    the buttons as a recomputation would set them, although the constructor
    runs none: the flags it creates the buttons with are the right ones. *)
Lemma init_recomputed clock steps self :
  Forall (fun pair => exists step, pair.2 = StepWidget step /\ state step = Member INIT)
         steps ->
  __init__ clock steps = Ok self -> buttons_recomputed self.
Proof.
  intros Hall. unfold __init__.
  destruct (Nat.ltb_spec (length steps) 2) as [|Hlen]; [discriminate|].
  destruct (first_titles (map snd steps)); simpl; [|discriminate].
  destruct (observed_steps (map snd steps)) as [kids|e] eqn:Hobs; simpl; [|discriminate].
  intros [= <-].
  assert (Hinit : Forall (fun step => state step = Member INIT) kids).
  { clear Hlen. revert kids Hobs.
    induction Hall as [|[title wd] rest (step & Hwd & Hst) _ IH]; intros kids; simpl.
    - intros [= <-]. constructor.
    - simpl in Hwd. subst wd.
      destruct (observed_steps (map snd rest)) as [kids'|e]; simpl; [|discriminate].
      intros [= <-]. constructor; [exact Hst | now apply IH]. }
  assert (Hkids : length kids = length steps).
  { clear Hinit. revert kids Hobs. clear Hall Hlen.
    induction steps as [|[title wd] rest IH]; intros kids; simpl.
    - now intros [= <-].
    - destruct wd; try discriminate.
      destruct (observed_steps (map snd rest)) as [kids'|e]; simpl; [|discriminate].
      intros [= <-]. simpl. f_equal. now apply IH. }
  unfold buttons_recomputed.
  match goal with |- _update_buttons ?w = _ =>
    destruct (update_titles_frame clock
      {| titles := map fst steps; children := kids; selected_index := Some 0%Z;
         accordion_titles := ∅; back_button_disabled := true;
         next_button_disabled := true; reset_button_disabled := true |})
      as (Hs & Hc & _);
    destruct (update_buttons_in_range w 0%Z) as (first & Hfirst & ->);
      [exact Hs | rewrite Hc; simpl; lia |]
  end.
  rewrite Hc in Hfirst. simpl in Hfirst.
  assert (Hst : state first = Member INIT).
  { rewrite Forall_forall in Hinit. apply Hinit.
    apply list_elem_of_lookup. eauto. }
  assert (Hcan : truthy (can_reset (_update_titles clock
      {| titles := map fst steps; children := kids; selected_index := Some 0%Z;
         accordion_titles := ∅; back_button_disabled := true;
         next_button_disabled := true; reset_button_disabled := true |})) = false).
  { unfold can_reset. rewrite Hc. simpl.
    destruct (existsb _ kids); [reflexivity|].
    replace (existsb (fun step => negb (is_ (state step) INIT)) kids) with false;
      [reflexivity|].
    symmetry. apply existsb_Forall.
    eapply Forall_impl; [exact Hinit|]. intros x ->. reflexivity. }
  rewrite Hcan, Hst. simpl. rewrite orb_true_r.
  unfold _update_titles.
  destruct (update_titles_from_frame clock 0
              (zip (map fst steps) kids)
              {| titles := map fst steps; children := kids; selected_index := Some 0%Z;
                 accordion_titles := ∅; back_button_disabled := true;
                 next_button_disabled := true; reset_button_disabled := true |})
    as (_ & _ & _ & Hb & Hn & Hr).
  simpl in *.
  destruct (update_titles_from clock 0 (zip (map fst steps) kids) _) eqn:Hw.
  simpl in *. subst. reflexivity.
Qed.

(** A state-change event while no step is selected does not return: the
    auto-advance check adds one to [None]. *)
Lemma update_step_state_unset clock self :
  selected_index self = None -> _update_step_state clock self = Raise TypeError.
Proof.
  intros Hsel. unfold _update_step_state.
  destruct (update_titles_frame clock self) as (Hs & _).
  unfold _update_buttons. rewrite Hs, Hsel. simpl.
  unfold _consider_auto_advance. simpl. rewrite Hs, Hsel. reflexivity.
Qed.

(** The scenario of three steps with auto-advance on the middle one only:
    step 0 succeeds, which enables Next and leaves the selection; Next is
    clicked; step 1 succeeds, and the selection moves to step 2 by itself. *)
Lemma scenario_three_steps :
  exists w1 w2 w3,
    (w0 <- __init__ at_rest
             [("Structure", StepWidget (step_in (Member INIT) false));
              ("Configure", StepWidget (step_in (Member INIT) true));
              ("Results", StepWidget (step_in (Member INIT) false))] ;;
     assign_state at_rest 0 (Member SUCCESS) w0) = Ok w1 /\
    selected_index w1 = Some 0%Z /\ next_button_disabled w1 = false /\
    _on_click_next_button w1 = Ok w2 /\
    selected_index w2 = Some 1%Z /\ next_button_disabled w2 = true /\
    assign_state at_rest 1 (Member SUCCESS) w2 = Ok w3 /\
    selected_index w3 = Some 2%Z /\ next_button_disabled w3 = true.
Proof.
  do 3 eexists.
  split; [vm_compute; reflexivity|]. split; [reflexivity|]. split; [reflexivity|].
  split; [vm_compute; reflexivity|]. split; [reflexivity|]. split; [reflexivity|].
  split; [vm_compute; reflexivity|]. split; reflexivity.
Qed.

(** ** Reset capability *)

Lemma not_INIT (v : value) : negb (is_ v INIT) = true <-> v <> Member INIT.
Proof.
  rewrite negb_true_iff, <- not_true_iff_false, is_Member. tauto.
Qed.

(** C4. [can_reset()] is truthy exactly when every step has a [reset] and
    some step is not in state INIT; it is [False] as soon as one step has no
    [reset]; when every step has one and all are INIT it returns [None],
    which is falsy. *)
Theorem can_reset_iff (self : WizardAppWidget.t) :
  (truthy (can_reset self) = true <->
     Forall (fun step => has_reset step = true) (children self) /\
     Exists (fun step => state step <> Member INIT) (children self)) /\
  (Exists (fun step => has_reset step = false) (children self) ->
     can_reset self = Some false) /\
  (Forall (fun step => has_reset step = true) (children self) ->
   Forall (fun step => state step = Member INIT) (children self) ->
     can_reset self = None /\ truthy (can_reset self) = false).
Proof.
  unfold can_reset, WizardAppWidgetStep.can_reset.
  destruct (existsb (fun step => negb (has_reset step)) (children self)) eqn:Hcap.
  - apply existsb_Exists in Hcap.
    assert (Hlack : Exists (fun step => has_reset step = false) (children self)).
    { eapply Exists_impl; [exact Hcap|]. intros x Hx. now apply negb_true_iff. }
    assert (Hnot : ~ Forall (fun step => has_reset step = true) (children self)).
    { intros Hall. apply Exists_exists in Hlack as (x & Hin & Hx).
      rewrite Forall_forall in Hall. specialize (Hall x Hin). congruence. }
    split; [|split].
    + simpl. split; [discriminate | tauto].
    + reflexivity.
    + tauto.
  - apply existsb_Forall in Hcap.
    assert (Hall : Forall (fun step => has_reset step = true) (children self)).
    { eapply Forall_impl; [exact Hcap|]. intros x Hx. now apply negb_false_iff. }
    assert (Hno : ~ Exists (fun step => has_reset step = false) (children self)).
    { intros Hlack. apply Exists_exists in Hlack as (x & Hin & Hx).
      rewrite Forall_forall in Hall. specialize (Hall x Hin). congruence. }
    destruct (existsb (fun step => negb (is_ (state step) INIT)) (children self)) eqn:Hst.
    + apply existsb_Exists in Hst.
      assert (Hsome : Exists (fun step => state step <> Member INIT) (children self)).
      { eapply Exists_impl; [exact Hst|]. intros x Hx. now apply not_INIT. }
      split; [|split].
      * simpl. tauto.
      * tauto.
      * intros _ Hinit. exfalso.
        apply Exists_exists in Hsome as (x & Hin & Hx).
        rewrite Forall_forall in Hinit. now specialize (Hinit x Hin).
    + apply existsb_Forall in Hst.
      assert (Hinit : Forall (fun step => state step = Member INIT) (children self)).
      { eapply Forall_impl; [exact Hst|]. intros x Hx.
        apply negb_false_iff in Hx. now apply is_Member. }
      split; [|split].
      * simpl. split; [discriminate|]. intros [_ Hsome]. exfalso.
        apply Exists_exists in Hsome as (x & Hin & Hx).
        rewrite Forall_forall in Hinit. now specialize (Hinit x Hin).
      * tauto.
      * intros _ _. split; reflexivity.
Qed.

(** ** Titles *)

(** C9. One pass of [_update_titles], as the spinner thread runs it, leaves
    the selected index, the steps with their states, the static titles and
    the three buttons as they were: only the accordion's titles change. *)
Theorem update_titles_display_only (clock : nat -> Q) (self : WizardAppWidget.t) :
  selected_index (_update_titles clock self) = selected_index self /\
  children (_update_titles clock self) = children self /\
  map state (children (_update_titles clock self)) = map state (children self) /\
  titles (_update_titles clock self) = titles self /\
  back_button_disabled (_update_titles clock self) = back_button_disabled self /\
  next_button_disabled (_update_titles clock self) = next_button_disabled self /\
  reset_button_disabled (_update_titles clock self) = reset_button_disabled self.
Proof.
  unfold _update_titles.
  destruct (update_titles_from_frame clock 0 (zip (titles self) (children self)) self)
    as (Ht & Hc & Hs & Hb & Hn & Hr).
  rewrite Hc. repeat split; assumption.
Qed.

Lemma update_titles_from_below clock k items self (key : nat) :
  key < k ->
  accordion_titles (update_titles_from clock k items self) !! key
  = accordion_titles self !! key.
Proof.
  revert k self. induction items as [|[title wd] rest IH]; intros k self Hlt; simpl.
  - reflexivity.
  - rewrite IH by lia. simpl. apply lookup_insert_ne. lia.
Qed.

Lemma update_titles_from_lookup clock k items self (j : nat) title wd :
  items !! j = Some (title, wd) ->
  accordion_titles (update_titles_from clock k items self) !! (k + j)
  = Some (title_text (icon_of (clock (k + j)) (state wd)) (k + j) title).
Proof.
  revert k j self. induction items as [|[title' wd'] rest IH]; intros k j self Hlk.
  - discriminate.
  - destruct j as [|j]; simpl in *.
    + injection Hlk as -> ->. rewrite Nat.add_0_r.
      rewrite update_titles_from_below by lia. simpl. apply lookup_insert_eq.
    + replace (k + S j) with (S k + j) by lia. now apply IH.
Qed.

Lemma update_titles_lookup clock self (i : nat) title step :
  titles self !! i = Some title -> children self !! i = Some step ->
  accordion_titles (_update_titles clock self) !! i
  = Some (title_text (icon_of (clock i) (state step)) i title).
Proof.
  intros Ht Hc. unfold _update_titles.
  apply (update_titles_from_lookup clock 0 _ self i title step).
  now apply lookup_zip_Some.
Qed.



(** ** Auto-advance *)

Lemma auto_advance_target_range (steps : list Step) (i : Z) :
  (0 <= i < Z.of_nat (length steps))%Z ->
  (0 <= auto_advance_target steps i < Z.of_nat (length steps))%Z /\
  (i <= auto_advance_target steps i <= i + 1)%Z.
Proof.
  intros Hi. unfold auto_advance_target.
  destruct (steps !! Z.to_nat i) as [step|]; [|lia].
  destruct (auto_advance step); simpl; [|lia].
  destruct (Z.eqb_spec (i + 1) (Z.of_nat (length steps))); simpl; [lia|].
  destruct (is_ (state step) SUCCESS); lia.
Qed.

Lemma consider_auto_advance_result (self : WizardAppWidget.t) (i : Z) :
  selected_index self = Some i ->
  (0 <= i < Z.of_nat (length (children self)))%Z ->
  exists self',
    _consider_auto_advance self = Ok self' /\
    children self' = children self /\
    titles self' = titles self /\
    selected_index self' = Some (auto_advance_target (children self) i).
Proof.
  intros Hsel Hi.
  destruct (getitem_in_range (children self) i Hi) as (step & Hlk & Hget).
  unfold _consider_auto_advance, auto_advance_target. rewrite Hsel, Hget, Hlk. simpl.
  destruct (auto_advance step && negb (i + 1 =? Z.of_nat (length (children self)))%Z
            && is_ (state step) SUCCESS) eqn:Hcond.
  - apply andb_true_iff in Hcond as [Hcond _].
    apply andb_true_iff in Hcond as [_ Hlast].
    apply negb_true_iff, Z.eqb_neq in Hlast.
    destruct (set_selected_index_moves self i (i + 1)%Z Hsel) as (self' & Hset & Hs' & Hc' & Hupd);
      [lia | lia |].
    exists self'. split; [exact Hset|]. split; [exact Hc'|]. split; [|exact Hs'].
    apply update_buttons_frame in Hupd. tauto.
  - exists self. repeat split. exact Hsel.
Qed.

Lemma update_step_state_result (clock : nat -> Q) (self : WizardAppWidget.t) (i : Z) :
  selected_index self = Some i ->
  (0 <= i < Z.of_nat (length (children self)))%Z ->
  exists self',
    _update_step_state clock self = Ok self' /\
    children self' = children self /\
    titles self' = titles self /\
    selected_index self' = Some (auto_advance_target (children self) i).
Proof.
  intros Hsel Hi.
  destruct (update_titles_frame clock self) as (Hs & Hch & Ht).
  destruct (update_buttons_in_range (_update_titles clock self) i)
    as (step & _ & Hupd); [congruence | rewrite Hch; exact Hi |].
  unfold _update_step_state. rewrite Hupd. simpl.
  edestruct (consider_auto_advance_result) as (self' & Hadv & Hc' & Ht' & Hs');
    [ | | exists self'; split; [exact Hadv|] ].
  - simpl. rewrite Hs. exact Hsel.
  - simpl. rewrite Hch. exact Hi.
  - simpl in *. rewrite Hc', Ht', Hs', Hch, Ht. repeat split.
Qed.

Lemma assign_state_result (clock : nat -> Q) (j : nat) (v : value)
    (self : WizardAppWidget.t) (i : Z) :
  selected_index self = Some i ->
  (0 <= i < Z.of_nat (length (children self)))%Z ->
  exists self' i',
    assign_state clock j v self = Ok self' /\
    map has_reset (children self') = map has_reset (children self) /\
    map auto_advance (children self') = map auto_advance (children self) /\
    length (children self') = length (children self) /\
    selected_index self' = Some i' /\
    (0 <= i' < Z.of_nat (length (children self')))%Z.
Proof.
  intros Hsel Hi. unfold assign_state.
  destruct (children self !! j) as [step|] eqn:Hj; [|exists self, i; repeat split; assumption || lia].
  destruct (decide (state step = v)) as [_|_]; [exists self, i; repeat split; assumption || lia|].
  assert (Hlen : length (<[j := with_state v step]> (children self)) = length (children self))
    by apply length_insert.
  destruct (update_step_state_result clock
              (with_children (<[j := with_state v step]> (children self)) self) i)
    as (self' & Hrun & Hc' & _ & Hs'); [exact Hsel | simpl; lia |].
  simpl in Hc', Hs'.
  exists self', (auto_advance_target (<[j := with_state v step]> (children self)) i).
  split; [exact Hrun|]. rewrite Hc'.
  assert (Hsame : forall (B : Type) (f : Step -> B), f (with_state v step) = f step ->
            map f (<[j := with_state v step]> (children self)) = map f (children self)).
  { intros B f Hf. rewrite list_fmap_insert, Hf.
    apply list_insert_id. rewrite list_lookup_fmap, Hj. reflexivity. }
  split; [apply Hsame; reflexivity|]. split; [apply Hsame; reflexivity|].
  split; [exact Hlen|]. split; [exact Hs'|].
  pose proof (auto_advance_target_range (<[j := with_state v step]> (children self)) i) as Hr.
  rewrite Hlen in *. lia.
Qed.

(** C10. With a step selected (the index set and within the tuple of
    steps), the state-change handler finds the selected step in bounds, and
    both the auto-advance check and the whole handler return normally; so
    does the assignment of any state to any step, which delivers the
    notification. *)
Theorem state_change_handler_in_bounds (clock : nat -> Q) (self : WizardAppWidget.t)
    (i : Z) :
  selected_index self = Some i ->
  (0 <= i < Z.of_nat (length (children self)))%Z ->
  (exists step,
     children self !! Z.to_nat i = Some step /\
     getitem (children self) i = Ok step) /\
  (exists self', _consider_auto_advance self = Ok self') /\
  (exists self', _update_step_state clock self = Ok self') /\
  (forall (j : nat) (v : value),
     exists self', assign_state clock j v self = Ok self').
Proof.
  intros Hsel Hi. split; [|split; [|split]].
  - apply getitem_in_range, Hi.
  - destruct (consider_auto_advance_result self i Hsel Hi) as (self' & H & _). eauto.
  - destruct (update_step_state_result clock self i Hsel Hi) as (self' & H & _). eauto.
  - intros j v.
    destruct (assign_state_result clock j v self i Hsel Hi) as (self' & i' & H & _). eauto.
Qed.

Lemma state_change_handler_in_bounds_witness :
  exists self',
    _update_step_state at_rest
      (wizard_of [step_in (Member SUCCESS) true; step_in (Member INIT) true;
                  step_in (Member INIT) false] (Some 0%Z)) = Ok self'.
Proof.
  apply (state_change_handler_in_bounds at_rest
           (wizard_of [step_in (Member SUCCESS) true; step_in (Member INIT) true;
                       step_in (Member INIT) false] (Some 0%Z)) 0%Z).
  - reflexivity.
  - simpl. lia.
Defined.

(** C3, as stated, fails: in a wizard of three auto-advance steps, step 1
    succeeds first and then the selected step 0 succeeds.  The second event
    moves the selection to step 1 and stops there, although step 1 is
    auto-advance, already SUCCESS and not last; the chained selection
    would be step 2. *)
Lemma auto_advance_stops_after_one_step :
  exists self step,
    (w0 <- __init__ at_rest three_auto ;;
     w1 <- assign_state at_rest 1 (Member SUCCESS) w0 ;;
     assign_state at_rest 0 (Member SUCCESS) w1) = Ok self /\
    selected_index self = Some 1%Z /\
    children self !! 1 = Some step /\
    auto_advance step = true /\ state step = Member SUCCESS /\
    (1 + 1 =? Z.of_nat (length (children self)))%Z = false /\
    chained_selection (children self) 0 = 2%Z.
Proof.
  eexists. eexists. split; [vm_compute; reflexivity|].
  repeat split.
Qed.

(** C3, amended. Each state-change event runs the auto-advance check once:
    the handler returns with the steps unchanged and the selection moved
    from [i] to [i + 1] when step [i] is auto-advance, SUCCESS and not last,
    and left at [i] otherwise.  A step reached this way that is itself
    auto-advance and already SUCCESS is left only by the next event: a
    second run of the handler moves on by the same rule. *)
Theorem auto_advance_one_step_per_event (clock clock' : nat -> Q)
    (self : WizardAppWidget.t) (i : Z) :
  selected_index self = Some i ->
  (0 <= i < Z.of_nat (length (children self)))%Z ->
  exists self' self'',
    _update_step_state clock self = Ok self' /\
    children self' = children self /\
    selected_index self' = Some (auto_advance_target (children self) i) /\
    (i <= auto_advance_target (children self) i <= i + 1)%Z /\
    (auto_advance_target (children self) i = (i + 1)%Z <->
       exists step, children self !! Z.to_nat i = Some step /\
         auto_advance step = true /\ state step = Member SUCCESS /\
         (i + 1)%Z <> Z.of_nat (length (children self))) /\
    _update_step_state clock' self' = Ok self'' /\
    children self'' = children self /\
    selected_index self''
      = Some (auto_advance_target (children self)
                (auto_advance_target (children self) i)).
Proof.
  intros Hsel Hi.
  destruct (update_step_state_result clock self i Hsel Hi) as (self' & Hrun & Hc & _ & Hs).
  pose proof (auto_advance_target_range (children self) i Hi) as [Hr Hstep].
  destruct (update_step_state_result clock' self' (auto_advance_target (children self) i))
    as (self'' & Hrun' & Hc' & _ & Hs'); [exact Hs | rewrite Hc; exact Hr |].
  exists self', self''.
  split; [exact Hrun|]. split; [exact Hc|]. split; [exact Hs|]. split; [exact Hstep|].
  split; [|split; [exact Hrun'|split; [congruence|rewrite Hs', Hc; reflexivity]]].
  unfold auto_advance_target.
  destruct (getitem_in_range (children self) i Hi) as (step & Hlk & _). rewrite Hlk.
  destruct (auto_advance step && negb (i + 1 =? Z.of_nat (length (children self)))%Z
            && is_ (state step) SUCCESS) eqn:Hcond.
  - apply andb_true_iff in Hcond as [Hcond Hst].
    apply andb_true_iff in Hcond as [Hauto Hlast].
    apply negb_true_iff, Z.eqb_neq in Hlast. apply is_Member in Hst.
    split; [intros _; exists step; tauto | reflexivity].
  - split; [lia|]. intros (step' & [= <-] & Hauto & Hst & Hlast). exfalso.
    apply is_Member in Hst. apply Z.eqb_neq in Hlast.
    rewrite Hauto, Hst, Hlast in Hcond. discriminate.
Qed.

Lemma auto_advance_one_step_per_event_witness :
  exists self' self'',
    _update_step_state at_rest
      (wizard_of [step_in (Member SUCCESS) true; step_in (Member SUCCESS) true;
                  step_in (Member INIT) false] (Some 0%Z)) = Ok self' /\
    selected_index self' = Some 1%Z /\
    _update_step_state at_rest self' = Ok self'' /\
    selected_index self'' = Some 2%Z.
Proof.
  destruct (auto_advance_one_step_per_event at_rest at_rest
              (wizard_of [step_in (Member SUCCESS) true; step_in (Member SUCCESS) true;
                          step_in (Member INIT) false] (Some 0%Z)) 0%Z)
    as (self' & self'' & H1 & _ & H2 & _ & _ & H3 & _ & H4).
  - reflexivity.
  - simpl. lia.
  - exists self', self''. repeat split; assumption.
Defined.

(** ** Construction *)




(** ** Reset order *)



Lemma range_bounds (a b : Z) :
  Forall (fun idx => (a <= idx < b)%Z) (range a b).
Proof.
  unfold range. apply Forall_forall. intros idx Hin.
  apply list_elem_of_In, in_map_iff in Hin as (k & <- & Hk).
  apply in_seq in Hk. lia.
Qed.

Section ResetOrder.

(** The steps' [reset()] methods, and a property of the wizard under which
    each of them returns normally and that they maintain; no [reset()]
    gives or takes away another step's [reset] attribute. *)
Variable step_reset : nat -> WizardAppWidget.t -> result WizardAppWidget.t.
Variable inv : WizardAppWidget.t -> Prop.
Hypothesis step_reset_returns :
  forall pos self, inv self ->
    exists self', step_reset pos self = Ok self' /\ inv self' /\
      map has_reset (children self') = map has_reset (children self).



End ResetOrder.


(** With nothing selected, a [reset()] that puts its step back to INIT
    reaches the state-change handler, whose auto-advance check raises: the
    loop stops there.  This is why the steps' methods are required to return
    normally above. *)
Lemma reset_with_nothing_selected :
  reset (fun pos self => assign_state at_rest pos (Member INIT) self) 0
    (wizard_of [step_in (Member SUCCESS) true; step_in (Member SUCCESS) true;
                step_in (Member READY) false] None)
  = Raise TypeError.
Proof. vm_compute. reflexivity. Qed.

(** * Further properties of the handlers *)

(** ** What the handlers leave alone *)

Lemma set_selected_index_frame v self self' :
  set_selected_index v self = Ok self' ->
  children self' = children self /\ titles self' = titles self /\
  accordion_titles self' = accordion_titles self /\
  selected_index self' = v /\ valid_index v self = true.
Proof.
  unfold set_selected_index.
  destruct (valid_index v self) eqn:Hvalid; [|discriminate].
  destruct (decide (v = selected_index self)) as [Heq|_].
  - intros [= <-]. repeat split. now symmetry.
  - intros Hupd. apply update_buttons_frame in Hupd. simpl in Hupd. tauto.
Qed.

Lemma consider_auto_advance_frame self self' :
  _consider_auto_advance self = Ok self' ->
  children self' = children self /\ titles self' = titles self /\
  accordion_titles self' = accordion_titles self /\
  (selected_index self' = selected_index self \/
   valid_index (selected_index self') self = true).
Proof.
  unfold _consider_auto_advance.
  destruct (selected_index self) as [index|] eqn:Hsel; [|discriminate].
  destruct (getitem (children self) index) as [wd|e]; simpl; [|discriminate].
  destruct (auto_advance wd && negb (index + 1 =? Z.of_nat (length (children self)))%Z
            && is_ (state wd) SUCCESS).
  - intros Hset. apply set_selected_index_frame in Hset as (Hc & Ht & Ha & Hs & Hv).
    rewrite Hs. tauto.
  - intros [= <-]. rewrite Hsel. tauto.
Qed.

Lemma update_step_state_frame clock self self' :
  _update_step_state clock self = Ok self' ->
  children self' = children self /\ titles self' = titles self /\
  (selected_index self' = selected_index self \/
   valid_index (selected_index self') self = true).
Proof.
  unfold _update_step_state.
  destruct (update_titles_frame clock self) as (Hs0 & Hc0 & Ht0).
  destruct (_update_buttons (_update_titles clock self)) as [self1|e] eqn:Hupd;
    simpl; [|discriminate].
  apply update_buttons_frame in Hupd as (Ht1 & Hc1 & Hs1 & _).
  intros Hadv. apply consider_auto_advance_frame in Hadv as (Hc & Ht & _ & Hs).
  split; [congruence|]. split; [congruence|].
  destruct Hs as [Hs|Hs]; [left; congruence|right].
  unfold valid_index in *. rewrite Hc1, Hc0 in Hs. exact Hs.
Qed.

(** X1. The wizard never touches its steps: whichever handler runs and
    returns (the recomputation of the buttons, an assignment to the selected
    index, a click on Back or Next, the auto-advance check, the state-change
    handler), the steps with their states and flags and the static titles
    are what they were. *)
Theorem handlers_keep_steps (clock : nat -> Q) (self self' : WizardAppWidget.t) :
  _update_buttons self = Ok self' \/
  (exists v, set_selected_index v self = Ok self') \/
  _on_click_back_button self = Ok self' \/
  _on_click_next_button self = Ok self' \/
  _consider_auto_advance self = Ok self' \/
  _update_step_state clock self = Ok self' ->
  children self' = children self /\ titles self' = titles self.
Proof.
  intros [H|[[v H]|[H|[H|[H|H]]]]].
  - apply update_buttons_frame in H. tauto.
  - apply set_selected_index_frame in H. tauto.
  - unfold _on_click_back_button in H.
    destruct (selected_index self); [|discriminate].
    apply set_selected_index_frame in H. tauto.
  - unfold _on_click_next_button in H.
    destruct (selected_index self); [|discriminate].
    apply set_selected_index_frame in H. tauto.
  - apply consider_auto_advance_frame in H. tauto.
  - apply update_step_state_frame in H. tauto.
Qed.

Lemma handlers_keep_steps_witness :
  exists self',
    _update_step_state at_rest
      (wizard_of [step_in (Member SUCCESS) true; step_in (Member READY) true;
                  step_in (Member INIT) false] (Some 0%Z)) = Ok self' /\
    selected_index self' = Some 1%Z /\
    children self'
    = [step_in (Member SUCCESS) true; step_in (Member READY) true;
       step_in (Member INIT) false].
Proof.
  eexists. split; [vm_compute; reflexivity|]. split; [reflexivity|].
  apply (handlers_keep_steps at_rest
           (wizard_of [step_in (Member SUCCESS) true; step_in (Member READY) true;
                       step_in (Member INIT) false] (Some 0%Z))).
  do 5 right. vm_compute. reflexivity.
Defined.

(** ** The selection stays within the steps *)

Lemma valid_index_length v (a b : WizardAppWidget.t) :
  length (children a) = length (children b) -> valid_index v a = valid_index v b.
Proof. intros H. unfold valid_index. now rewrite H. Qed.

Lemma assign_state_frame clock j v self self' :
  assign_state clock j v self = Ok self' ->
  length (children self') = length (children self) /\
  titles self' = titles self /\
  (selected_index self' = selected_index self \/
   valid_index (selected_index self') self = true).
Proof.
  unfold assign_state.
  destruct (children self !! j) as [step|]; [|intros [= <-]; tauto].
  destruct (decide (state step = v)); [intros [= <-]; tauto|].
  intros H. apply update_step_state_frame in H as (Hc & Ht & Hs).
  simpl in *. rewrite Hc, length_insert. split; [reflexivity|]. split; [exact Ht|].
  destruct Hs as [Hs|Hs]; [now left|right].
  unfold valid_index in *. simpl in Hs. now rewrite length_insert in Hs.
Qed.

(** X2. The selected index stays unset or within [0, number of steps):
    from a wizard whose selection is so, every assignment to the selected
    index, click on Back or Next, auto-advance check, state-change handler
    and assignment of a state to a step that returns leaves it so. *)
Theorem selection_stays_valid (clock : nat -> Q) (self self' : WizardAppWidget.t) :
  valid_index (selected_index self) self = true ->
  (exists v, set_selected_index v self = Ok self') \/
  _on_click_back_button self = Ok self' \/
  _on_click_next_button self = Ok self' \/
  _consider_auto_advance self = Ok self' \/
  _update_step_state clock self = Ok self' \/
  (exists j v, assign_state clock j v self = Ok self') ->
  valid_index (selected_index self') self' = true.
Proof.
  intros Hvalid.
  assert (Hset : forall v, set_selected_index v self = Ok self' ->
            valid_index (selected_index self') self' = true).
  { intros v H. apply set_selected_index_frame in H as (Hc & _ & _ & Hs & Hv).
    rewrite Hs, (valid_index_length v self' self); [exact Hv | now rewrite Hc]. }
  assert (Hmove : length (children self') = length (children self) ->
            selected_index self' = selected_index self \/
            valid_index (selected_index self') self = true ->
            valid_index (selected_index self') self' = true).
  { intros Hlen Hs. rewrite (valid_index_length _ self' self Hlen).
    destruct Hs as [-> | Hs]; assumption. }
  intros [[v H]|[H|[H|[H|[H|(j & v & H)]]]]].
  - now apply (Hset v).
  - unfold _on_click_back_button in H.
    destruct (selected_index self) as [index|]; [|discriminate]. now apply (Hset _ H).
  - unfold _on_click_next_button in H.
    destruct (selected_index self) as [index|]; [|discriminate]. now apply (Hset _ H).
  - apply consider_auto_advance_frame in H as (Hc & _ & _ & Hs).
    apply Hmove; [now rewrite Hc | exact Hs].
  - apply update_step_state_frame in H as (Hc & _ & Hs).
    apply Hmove; [now rewrite Hc | exact Hs].
  - apply assign_state_frame in H as (Hlen & _ & Hs). now apply Hmove.
Qed.

Lemma selection_stays_valid_witness :
  exists self',
    assign_state at_rest 1 (Member SUCCESS)
      (wizard_of [step_in (Member SUCCESS) true; step_in (Member READY) true;
                  step_in (Member INIT) false] (Some 1%Z)) = Ok self' /\
    selected_index self' = Some 2%Z /\
    valid_index (selected_index self') self' = true.
Proof.
  eexists. split; [vm_compute; reflexivity|]. split; [reflexivity|].
  apply (selection_stays_valid at_rest
           (wizard_of [step_in (Member SUCCESS) true; step_in (Member READY) true;
                       step_in (Member INIT) false] (Some 1%Z))).
  - reflexivity.
  - do 5 right. exists 1, (Member SUCCESS). vm_compute. reflexivity.
Defined.

(** ** The buttons after a state-change event *)

Lemma can_reset_truthy (self : WizardAppWidget.t) :
  truthy (can_reset self) = true <->
  Forall (fun step => has_reset step = true) (children self) /\
  Exists (fun step => state step <> Member INIT) (children self).
Proof.
  assert (Hcap : existsb (fun step => negb (has_reset step)) (children self) = false <->
                 Forall (fun step => has_reset step = true) (children self)).
  { rewrite existsb_Forall.
    split; intros H; (eapply Forall_impl; [exact H|]); intros x Hx;
      now apply negb_false_iff. }
  assert (Hst : existsb (fun step => negb (is_ (state step) INIT)) (children self) = true <->
                Exists (fun step => state step <> Member INIT) (children self)).
  { rewrite existsb_Exists.
    split; intros H; (eapply Exists_impl; [exact H|]); intros x Hx;
      now apply not_INIT. }
  unfold can_reset, WizardAppWidgetStep.can_reset.
  destruct (existsb (fun step => negb (has_reset step)) (children self)) eqn:E1.
  - simpl. split; [discriminate|]. intros [Hall _]. apply Hcap in Hall. discriminate.
  - destruct (existsb (fun step => negb (is_ (state step) INIT)) (children self)) eqn:E2;
      simpl.
    + split; [intros _|reflexivity]. split; [now apply Hcap | now apply Hst].
    + split; [discriminate|]. intros [_ Hsome]. apply Hst in Hsome. discriminate.
Qed.

(** X3. When the state-change handler returns, the three buttons obey the
    rules for the step that is selected then, also when auto-advance has
    just moved the selection: Next is enabled iff that step is SUCCESS and
    not last, Back iff it is not first and not ACTIVE, SUCCESS or FAIL,
    Reset iff every step has a [reset] and some step is not INIT. *)
Theorem buttons_after_state_change (clock : nat -> Q)
    (self self' : WizardAppWidget.t) :
  valid_index (selected_index self) self = true ->
  _update_step_state clock self = Ok self' ->
  exists i step,
    selected_index self' = Some i /\
    (0 <= i < Z.of_nat (length (children self')))%Z /\
    children self' !! Z.to_nat i = Some step /\
    (next_button_disabled self' = false <->
       state step = Member SUCCESS /\ (i + 1)%Z <> Z.of_nat (length (children self'))) /\
    (back_button_disabled self' = false <->
       i <> 0%Z /\ state step <> Member ACTIVE /\ state step <> Member SUCCESS
       /\ state step <> Member FAIL) /\
    (reset_button_disabled self' = false <->
       Forall (fun step => has_reset step = true) (children self') /\
       Exists (fun step => state step <> Member INIT) (children self')).
Proof.
  intros Hvalid Hrun.
  destruct (selected_index self) as [i0|] eqn:Hsel.
  2:{ rewrite (update_step_state_unset clock self Hsel) in Hrun. discriminate. }
  assert (Hi0 : (0 <= i0 < Z.of_nat (length (children self)))%Z).
  { unfold valid_index in Hvalid. apply andb_true_iff in Hvalid as [H1 H2].
    apply Z.leb_le in H1. apply Z.ltb_lt in H2. lia. }
  destruct (update_step_state_result clock self i0 Hsel Hi0) as (s1 & Hrun1 & Hc & _ & Hs).
  rewrite Hrun in Hrun1. injection Hrun1 as <-.
  pose proof (auto_advance_target_range (children self) i0 Hi0) as [Hr _].
  pose proof (update_step_state_recomputed clock self self' Hrun) as Hrec.
  destruct (update_buttons_in_range self' (auto_advance_target (children self) i0))
    as (step & Hlk & Hupd); [exact Hs | rewrite Hc; exact Hr |].
  unfold buttons_recomputed in Hrec. rewrite Hupd in Hrec. injection Hrec as Hrec.
  exists (auto_advance_target (children self) i0), step.
  split; [exact Hs|]. split; [rewrite Hc; exact Hr|]. split; [exact Hlk|].
  split; [|split].
  - rewrite <- Hrec at 1. simpl.
    rewrite orb_false_iff, negb_false_iff, is_Member, Z.eqb_neq. tauto.
  - rewrite <- Hrec at 1. simpl.
    rewrite !orb_false_iff, Z.eqb_neq, <- !not_true_iff_false, !is_Member. tauto.
  - rewrite <- Hrec at 1. simpl.
    rewrite negb_false_iff. apply can_reset_truthy.
Qed.

Lemma buttons_after_state_change_witness :
  exists self' i step,
    _update_step_state at_rest
      (wizard_of [step_in (Member SUCCESS) true; step_in (Member SUCCESS) false;
                  step_in (Member INIT) false] (Some 0%Z)) = Ok self' /\
    selected_index self' = Some i /\
    children self' !! Z.to_nat i = Some step /\
    (next_button_disabled self' = false <->
       state step = Member SUCCESS /\ (i + 1)%Z <> Z.of_nat (length (children self'))).
Proof.
  eexists.
  edestruct (buttons_after_state_change at_rest
               (wizard_of [step_in (Member SUCCESS) true; step_in (Member SUCCESS) false;
                           step_in (Member INIT) false] (Some 0%Z)))
    as (i & step & Hs & _ & Hlk & Hnext & _).
  - reflexivity.
  - vm_compute. reflexivity.
  - exists i, step. split; [reflexivity|]. split; [exact Hs|]. split; [exact Hlk|].
    exact Hnext.
Defined.

(** X4. A state-change event while no step is selected raises [TypeError]:
    whenever a step's state really changes and the selected index is unset,
    the handler's auto-advance check adds one to [None], although the
    recomputation of the buttons just before it handles that case. *)
Theorem state_change_unset_raises (clock : nat -> Q) (self : WizardAppWidget.t)
    (j : nat) (step : Step) (v : value) :
  selected_index self = None ->
  children self !! j = Some step ->
  state step <> v ->
  assign_state clock j v self = Raise TypeError /\
  exists self', _update_buttons (_update_titles clock self) = Ok self'.
Proof.
  intros Hsel Hj Hne. split.
  - unfold assign_state. rewrite Hj.
    destruct (decide (state step = v)); [contradiction|].
    apply update_step_state_unset. exact Hsel.
  - destruct (update_titles_frame clock self) as (Hs & _).
    unfold _update_buttons. rewrite Hs, Hsel. eauto.
Qed.

Lemma state_change_unset_raises_witness :
  assign_state at_rest 0 (Member SUCCESS)
    (wizard_of [step_in (Member ACTIVE) true; step_in (Member INIT) false] None)
  = Raise TypeError.
Proof.
  apply (state_change_unset_raises at_rest
           (wizard_of [step_in (Member ACTIVE) true; step_in (Member INIT) false] None)
           0 (step_in (Member ACTIVE) true) (Member SUCCESS)).
  - reflexivity.
  - reflexivity.
  - discriminate.
Defined.

(** ** Next, then Back *)

Lemma update_buttons_ext (a b : WizardAppWidget.t) :
  titles a = titles b -> children a = children b ->
  selected_index a = selected_index b ->
  accordion_titles a = accordion_titles b ->
  _update_buttons a = _update_buttons b.
Proof.
  destruct a, b. simpl. intros -> -> -> ->. reflexivity.
Qed.

(** X5. Next and Back undo each other: from a wizard whose buttons are up
    to date, with a step selected that is not the last one, the handler of
    Next followed by the handler of Back gives back the very same wizard,
    selection and buttons included. *)
Theorem next_then_back_returns (self : WizardAppWidget.t) (i : Z) :
  buttons_recomputed self ->
  selected_index self = Some i ->
  (0 <= i)%Z -> (i + 1 < Z.of_nat (length (children self)))%Z ->
  exists mid,
    _on_click_next_button self = Ok mid /\
    selected_index mid = Some (i + 1)%Z /\
    _on_click_back_button mid = Ok self.
Proof.
  intros Hrec Hsel Hlo Hhi.
  destruct (set_selected_index_moves self i (i + 1)%Z Hsel)
    as (mid & Hnext & Hs & Hc & Hupd); [lia | lia |].
  exists mid. unfold _on_click_next_button. rewrite Hsel.
  split; [exact Hnext|]. split; [exact Hs|].
  unfold _on_click_back_button. rewrite Hs.
  replace (i + 1 - 1)%Z with i by lia.
  destruct (set_selected_index_moves mid (i + 1)%Z i Hs)
    as (back & Hback & _ & _ & Hupd'); [lia | rewrite Hc; lia |].
  rewrite Hback. rewrite <- Hupd'.
  apply update_buttons_frame in Hupd as (Ht & _ & _ & Ha). simpl in Ht, Ha.
  transitivity (_update_buttons self); [|exact Hrec].
  apply update_buttons_ext; simpl; congruence.
Qed.

Lemma next_then_back_returns_witness :
  exists mid,
    _on_click_next_button
      (with_buttons true false false
         (wizard_of [step_in (Member SUCCESS) false; step_in (Member READY) false]
                    (Some 0%Z))) = Ok mid /\
    selected_index mid = Some (0 + 1)%Z /\
    _on_click_back_button mid
    = Ok (with_buttons true false false
            (wizard_of [step_in (Member SUCCESS) false; step_in (Member READY) false]
                       (Some 0%Z))).
Proof.
  apply (next_then_back_returns
           (with_buttons true false false
              (wizard_of [step_in (Member SUCCESS) false; step_in (Member READY) false]
                         (Some 0%Z))) 0%Z).
  - reflexivity.
  - reflexivity.
  - lia.
  - simpl. lia.
Defined.

(** ** Which steps [reset] calls *)

Lemma index_of_position (n : nat) (i : Z) :
  (- Z.of_nat n <= i < Z.of_nat n)%Z ->
  index_of n i = Ok (position n i) /\ position n i < n.
Proof.
  intros Hi. unfold index_of, position.
  destruct (Z.leb_spec 0 i); simpl.
  - replace (i <? Z.of_nat n)%Z with true by (symmetry; apply Z.ltb_lt; lia).
    split; [reflexivity | lia].
  - replace (- Z.of_nat n <=? i)%Z with true by (symmetry; apply Z.leb_le; lia).
    replace (i <? 0)%Z with true by (symmetry; apply Z.ltb_lt; lia).
    split; [reflexivity | lia].
Qed.

Lemma has_reset_at_caps (a b : list Step) (pos : nat) :
  map has_reset a = map has_reset b -> has_reset_at a pos = has_reset_at b pos.
Proof.
  intros Hcaps. unfold has_reset_at.
  assert (H : has_reset <$> a !! pos = has_reset <$> b !! pos).
  { rewrite <- !list_lookup_fmap. change (fmap has_reset a) with (map has_reset a).
    change (fmap has_reset b) with (map has_reset b). now rewrite Hcaps. }
  destruct (a !! pos), (b !! pos); simpl in H; congruence.
Qed.

Lemma notifying_reset_returns (pos : nat) (self : WizardAppWidget.t) :
  step_selected self ->
  exists self', notifying_reset pos self = Ok self' /\ step_selected self' /\
    map has_reset (children self') = map has_reset (children self).
Proof.
  intros (i & Hsel & Hi).
  destruct (assign_state_result at_rest pos (Member INIT) self i Hsel Hi)
    as (self' & i' & Hrun & Hcap & _ & _ & Hs & Hr).
  exists self'. split; [exact Hrun|]. split; [exists i'; tauto | exact Hcap].
Qed.




Section ResetCalls.

Variable step_reset : nat -> WizardAppWidget.t -> result WizardAppWidget.t.
Variable inv : WizardAppWidget.t -> Prop.
Hypothesis step_reset_returns :
  forall pos self, inv self ->
    exists self', step_reset pos self = Ok self' /\ inv self' /\
      map has_reset (children self') = map has_reset (children self).

Lemma reset_loop_trace (indices : list Z) (calls : list nat)
    (self : WizardAppWidget.t) :
  inv self ->
  Forall (fun idx => (- Z.of_nat (length (children self)) <= idx
                      < Z.of_nat (length (children self)))%Z) indices ->
  exists self',
    reset_loop step_reset indices calls self
    = Ok (self', calls ++ List.filter (has_reset_at (children self))
                            (map (position (length (children self))) indices)) /\
    inv self' /\
    map has_reset (children self') = map has_reset (children self).
Proof.
  revert calls self.
  induction indices as [|idx rest IH]; intros calls self Hinv Hidx; simpl.
  - exists self. rewrite app_nil_r. tauto.
  - apply Forall_cons in Hidx as [Hi Hrest].
    destruct (index_of_position _ idx Hi) as [-> Hpos]. simpl.
    destruct (lookup_lt_is_Some_2 (children self) _ Hpos) as [wd Hwd].
    rewrite Hwd.
    assert (Hat : has_reset_at (children self)
                    (position (length (children self)) idx) = has_reset wd).
    { unfold has_reset_at. now rewrite Hwd. }
    rewrite Hat. destruct (has_reset wd).
    + destruct (step_reset_returns (position (length (children self)) idx) self Hinv)
        as (self1 & Hcall & Hinv1 & Hsame).
      rewrite Hcall. simpl.
      assert (Hlen : length (children self1) = length (children self)).
      { rewrite <- (length_map has_reset (children self1)), Hsame. apply length_map. }
      destruct (IH (calls ++ [position (length (children self)) idx]) self1 Hinv1)
        as (self' & Hloop & Hinv' & Hsame'); [now rewrite Hlen|].
      exists self'. rewrite Hloop, Hlen, <- app_assoc. simpl.
      rewrite (List.filter_ext _ _ (fun pos => has_reset_at_caps _ _ pos Hsame)).
      split; [reflexivity|]. split; [exact Hinv' | congruence].
    + apply IH; assumption.
Qed.




(** X8. The handler of the Reset button resets the steps that have a
    [reset], last to first, and then selects the first step: whatever was
    selected before, step 0 is selected when it returns, and the steps are
    as many as before. *)
Theorem click_reset_selects_first (self : WizardAppWidget.t) :
  inv self ->
  1 <= length (children self) ->
  exists self',
    _on_click_reset_button step_reset self = Ok self' /\
    selected_index self' = Some 0%Z /\
    length (children self') = length (children self).
Proof.
  intros Hinv Hlen.
  destruct (reset_loop_trace
              (reverse (range 0 (Z.of_nat (length (children self))))) [] self)
    as (self1 & Hloop & _ & Hsame); [exact Hinv | |].
  - apply Forall_reverse. eapply Forall_impl; [apply range_bounds|].
    simpl. intros idx Hidx. lia.
  - assert (Hlen1 : length (children self1) = length (children self)).
    { rewrite <- (length_map has_reset (children self1)), Hsame. apply length_map. }
    unfold _on_click_reset_button, reset. rewrite Hloop. simpl.
    unfold set_selected_index, valid_index.
    replace (0 <=? 0)%Z with true by reflexivity.
    replace (0 <? Z.of_nat (length (children self1)))%Z with true
      by (symmetry; apply Z.ltb_lt; lia).
    simpl. destruct (decide (Some 0%Z = selected_index self1)) as [Heq|_].
    + exists self1. split; [reflexivity|]. split; [now symmetry | exact Hlen1].
    + destruct (update_buttons_in_range (with_selected_index (Some 0%Z) self1) 0%Z)
        as (step & _ & Hupd); [reflexivity | simpl; lia |].
      rewrite Hupd. eexists. split; [reflexivity|]. simpl. split; [reflexivity | exact Hlen1].
Qed.

End ResetCalls.


Lemma click_reset_selects_first_witness :
  exists self',
    _on_click_reset_button notifying_reset
      (wizard_of [step_in (Member SUCCESS) true; step_in (Member SUCCESS) true;
                  step_in (Member READY) false] (Some 2%Z)) = Ok self' /\
    selected_index self' = Some 0%Z.
Proof.
  destruct (click_reset_selects_first notifying_reset step_selected
              notifying_reset_returns
              (wizard_of [step_in (Member SUCCESS) true; step_in (Member SUCCESS) true;
                          step_in (Member READY) false] (Some 2%Z)))
    as (self' & Hrun & Hsel & _).
  - exists 2%Z. split; [reflexivity | simpl; lia].
  - simpl. lia.
  - exists self'. split; [exact Hrun | exact Hsel].
Defined.


(** ** What a title pass writes *)

Lemma update_titles_from_beyond clock k items self (key : nat) :
  k + length items <= key ->
  accordion_titles (update_titles_from clock k items self) !! key
  = accordion_titles self !! key.
Proof.
  revert k self. induction items as [|[title wd] rest IH]; intros k self Hge; simpl in *.
  - reflexivity.
  - rewrite IH by lia. simpl. apply lookup_insert_ne. lia.
Qed.

Lemma icon_of_still (now now' : Q) (v : value) :
  v <> Member ACTIVE -> icon_of now v = icon_of now' v.
Proof.
  intros Hv. destruct v as [[]|repr]; try reflexivity. contradiction.
Qed.

(** X9. One pass of [_update_titles] writes, for every position that has
    both a step and a static title, the title made of the step's icon, its
    number counted from one and its static title; an accordion title at a
    position without a step or without a static title is left as it is. *)
Theorem titles_after_update (clock : nat -> Q) (self : WizardAppWidget.t) (i : nat) :
  (forall step title,
     children self !! i = Some step -> titles self !! i = Some title ->
     accordion_titles (_update_titles clock self) !! i
     = Some (icon_of (clock i) (state step) +:+ " Step " +:+ pretty (i + 1)
             +:+ ": " +:+ title)) /\
  (children self !! i = None \/ titles self !! i = None ->
     accordion_titles (_update_titles clock self) !! i = accordion_titles self !! i).
Proof.
  split.
  - intros step title Hc Ht. now apply update_titles_lookup.
  - intros Hnone. unfold _update_titles.
    apply update_titles_from_beyond. simpl.
    apply lookup_ge_None. apply lookup_zip_None. tauto.
Qed.

(** X10. The periodic refresh only animates: after a title pass, a second
    pass at any other time leaves the title of every step that is not in
    state ACTIVE exactly as the first wrote it. *)
Theorem refresh_keeps_inactive_titles (clock clock' : nat -> Q)
    (self : WizardAppWidget.t) (i : nat) :
  (forall step, children self !! i = Some step -> state step <> Member ACTIVE) ->
  accordion_titles (_update_titles clock' (_update_titles clock self)) !! i
  = accordion_titles (_update_titles clock self) !! i.
Proof.
  intros Hstill.
  destruct (update_titles_frame clock self) as (_ & Hc & Ht).
  destruct (children self !! i) as [step|] eqn:Hstep;
    [destruct (titles self !! i) as [title|] eqn:Htitle|].
  - rewrite (update_titles_lookup clock' (_update_titles clock self) i title step)
      by congruence.
    rewrite (update_titles_lookup clock self i title step Htitle Hstep).
    now rewrite (icon_of_still (clock' i) (clock i)) by (apply Hstill; reflexivity).
  - unfold _update_titles at 1. apply update_titles_from_beyond. simpl.
    apply lookup_ge_None, lookup_zip_None. rewrite Ht. now left.
  - unfold _update_titles at 1. apply update_titles_from_beyond. simpl.
    apply lookup_ge_None, lookup_zip_None. rewrite Hc. now right.
Qed.

Lemma refresh_keeps_inactive_titles_witness :
  accordion_titles
    (_update_titles (fun _ => (1 # 2)%Q)
       (_update_titles at_rest
          (wizard_of [step_in (Member ACTIVE) true; step_in (Member READY) true;
                      step_in (Member INIT) false] (Some 0%Z)))) !! 1
  = Some "◎ Step 2: Configure".
Proof.
  rewrite (refresh_keeps_inactive_titles at_rest (fun _ => (1 # 2)%Q)
             (wizard_of [step_in (Member ACTIVE) true; step_in (Member READY) true;
                         step_in (Member INIT) false] (Some 0%Z)) 1).
  - reflexivity.
  - intros step [= <-]. discriminate.
Defined.

(** ** The spinner *)



(** ** What the constructor raises and what it builds *)

Lemma first_titles_plain (widgets : list widget) :
  In PlainWidget widgets -> first_titles widgets = Raise AttributeError.
Proof.
  induction widgets as [|wd rest IH]; intros Hin; [destruct Hin|].
  destruct Hin as [->|Hin]; [reflexivity|].
  simpl. destruct wd; simpl; auto.
Qed.

Lemma first_titles_no_plain (widgets : list widget) :
  ~ In PlainWidget widgets -> first_titles widgets = Ok tt.
Proof.
  induction widgets as [|wd rest IH]; intros Hno; [reflexivity|].
  simpl. destruct wd; simpl.
  - apply IH. intros H. apply Hno. now right.
  - apply IH. intros H. apply Hno. now right.
  - exfalso. apply Hno. now left.
Qed.

Lemma observed_steps_unobservable (widgets : list widget) :
  (exists wd, In wd widgets /\ forall step, wd <> StepWidget step) ->
  observed_steps widgets = Raise AssertionError.
Proof.
  induction widgets as [|wd rest IH]; intros (bad & Hin & Hbad); [destruct Hin|].
  destruct Hin as [->|Hin].
  - destruct bad; [now destruct (Hbad step) | reflexivity | reflexivity].
  - destruct wd; simpl; [|reflexivity|reflexivity].
    rewrite IH; [reflexivity|]. exists bad. tauto.
Qed.

Lemma observed_steps_inv (widgets : list widget) (steps : list Step) :
  observed_steps widgets = Ok steps -> map StepWidget steps = widgets.
Proof.
  revert steps. induction widgets as [|wd rest IH]; intros steps; simpl.
  - now intros [= <-].
  - destruct wd; try discriminate.
    destruct (observed_steps rest) as [kids|e]; simpl; [|discriminate].
    intros [= <-]. simpl. f_equal. now apply IH.
Qed.

(** X12. Among two or more pairs, a widget that has no [state] at all makes
    the constructor raise [AttributeError], from its first title pass and
    before any assertion is reached; when every widget has a [state] but
    one of them has it as a plain attribute and not as a trait, the
    assertion fails. *)
Theorem construction_errors (clock : nat -> Q) (steps : list (string * widget)) :
  2 <= length steps ->
  (In PlainWidget (map snd steps) -> __init__ clock steps = Raise AttributeError) /\
  (~ In PlainWidget (map snd steps) ->
   (exists v, In (AttrWidget v) (map snd steps)) ->
     __init__ clock steps = Raise AssertionError).
Proof.
  intros Hlen. unfold __init__.
  destruct (Nat.ltb_spec (length steps) 2); [lia|]. split.
  - intros Hplain. now rewrite first_titles_plain.
  - intros Hno (v & Hattr). rewrite first_titles_no_plain by exact Hno. simpl.
    rewrite observed_steps_unobservable; [reflexivity|].
    exists (AttrWidget v). split; [exact Hattr | discriminate].
Qed.

Lemma construction_errors_witness :
  __init__ at_rest
    [("Structure", AttrWidget (Member INIT)); ("Configure", PlainWidget)]
  = Raise AttributeError /\
  __init__ at_rest
    [("Structure", StepWidget (step_in (Member INIT) true));
     ("Configure", AttrWidget (Member INIT))]
  = Raise AssertionError.
Proof.
  split.
  - apply (construction_errors at_rest
             [("Structure", AttrWidget (Member INIT)); ("Configure", PlainWidget)]).
    + simpl. lia.
    + simpl. tauto.
  - apply (construction_errors at_rest
             [("Structure", StepWidget (step_in (Member INIT) true));
              ("Configure", AttrWidget (Member INIT))]).
    + simpl. lia.
    + simpl. intros [H|[H|[]]]; discriminate.
    + exists (Member INIT). simpl. tauto.
Defined.

(** X13. Whatever the constructor returns is a wizard over the steps and
    titles it was given, at least two of them and as many titles as steps,
    with the first step selected, an accordion title for each step and for
    no other position, and Back, Next and Reset all disabled, whatever the
    states of the steps are at that time. *)
Theorem construction_result (clock : nat -> Q) (steps : list (string * widget))
    (self : WizardAppWidget.t) :
  __init__ clock steps = Ok self ->
  2 <= length (children self) /\
  length (titles self) = length (children self) /\
  titles self = map fst steps /\
  map StepWidget (children self) = map snd steps /\
  selected_index self = Some 0%Z /\
  back_button_disabled self = true /\
  next_button_disabled self = true /\
  reset_button_disabled self = true /\
  (forall i, is_Some (accordion_titles self !! i) <-> i < length (children self)).
Proof.
  unfold __init__.
  destruct (Nat.ltb_spec (length steps) 2) as [|Hlen]; [discriminate|].
  destruct (first_titles (map snd steps)); simpl; [|discriminate].
  destruct (observed_steps (map snd steps)) as [kids|e] eqn:Hobs; simpl; [|discriminate].
  intros [= <-].
  apply observed_steps_inv in Hobs.
  assert (Hkids : length kids = length steps).
  { rewrite <- (length_map StepWidget), Hobs. apply length_map. }
  unfold _update_titles. simpl.
  destruct (update_titles_from_frame clock 0 (zip (map fst steps) kids)
              {| titles := map fst steps; children := kids; selected_index := Some 0%Z;
                 accordion_titles := ∅; back_button_disabled := true;
                 next_button_disabled := true; reset_button_disabled := true |})
    as (Ht & Hc & Hs & Hb & Hn & Hr).
  simpl in *. rewrite Ht, Hc, Hs, Hb, Hn, Hr.
  split; [lia|]. split; [rewrite length_map; lia|].
  do 6 (split; [reflexivity || exact Hobs|]).
  intros i. destruct (Nat.lt_ge_cases i (length kids)) as [Hlt|Hge].
  - split; [intros _; exact Hlt|]. intros _.
    destruct (lookup_lt_is_Some_2 kids i Hlt) as [step Hstep].
    destruct (lookup_lt_is_Some_2 (map fst steps) i) as [title Htitle];
      [rewrite length_map; lia|].
    rewrite (update_titles_from_lookup clock 0 _ _ i title step)
      by (now apply lookup_zip_Some).
    eauto.
  - rewrite update_titles_from_beyond.
    + simpl. rewrite lookup_empty. split; [intros [x Hx]; discriminate | lia].
    + simpl. rewrite length_zip_with, length_map. lia.
Qed.

Lemma construction_result_witness :
  exists self,
    __init__ at_rest
      [("Structure", StepWidget (step_in (Member SUCCESS) true));
       ("Configure", StepWidget (step_in (Member INIT) true))] = Ok self /\
    selected_index self = Some 0%Z /\
    next_button_disabled self = true.
Proof.
  eexists. split; [vm_compute; reflexivity|].
  edestruct (construction_result at_rest
               [("Structure", StepWidget (step_in (Member SUCCESS) true));
                ("Configure", StepWidget (step_in (Member INIT) true))])
    as (_ & _ & _ & _ & Hs & _ & Hn & _).
  - vm_compute. reflexivity.
  - split; [exact Hs | exact Hn].
Defined.

Lemma init_recomputed_witness :
  exists self, __init__ at_rest three_auto = Ok self /\ buttons_recomputed self.
Proof.
  eexists. split; [vm_compute; reflexivity|].
  apply (init_recomputed at_rest three_auto).
  - repeat constructor; eexists; split; reflexivity.
  - vm_compute. reflexivity.
Defined.

(** ** Auto-advance over several events *)

Lemma chain_from_rest (fuel : nat) (steps : list Step) (i : Z) :
  auto_advance_target steps i = i -> chain_from fuel steps i = i.
Proof.
  intros Hfix. destruct fuel; simpl; [reflexivity|].
  now rewrite Hfix, Z.eqb_refl.
Qed.

Lemma chain_from_step (fuel : nat) (steps : list Step) (i : Z) :
  chain_from (S fuel) steps i = chain_from fuel steps (auto_advance_target steps i).
Proof.
  simpl. destruct (Z.eqb_spec (auto_advance_target steps i) i) as [Heq|_];
    [|reflexivity].
  rewrite Heq. symmetry. now apply chain_from_rest.
Qed.

Lemma chain_from_settles (steps : list Step) (fuel : nat) (i : Z) :
  (0 <= i < Z.of_nat (length steps))%Z ->
  (Z.of_nat (length steps) - i <= Z.of_nat fuel)%Z ->
  auto_advance_target steps (chain_from fuel steps i) = chain_from fuel steps i.
Proof.
  revert i. induction fuel as [|fuel IH]; intros i Hi Hfuel; [lia|].
  simpl. destruct (Z.eqb_spec (auto_advance_target steps i) i) as [Heq|Hne];
    [exact Heq|].
  pose proof (auto_advance_target_range steps i Hi) as [Hr Hstep].
  apply IH; lia.
Qed.

(** X15. Auto-advance completes over successive events: [k] runs of the
    state-change handler over unchanged steps move the selection [k] times
    by the one-step rule, and after as many runs as there are steps it has
    reached the end of the chain, where one more run no longer moves it. *)
Theorem auto_advance_completes (clock : nat -> Q) (self : WizardAppWidget.t)
    (i : Z) (k : nat) :
  selected_index self = Some i ->
  (0 <= i < Z.of_nat (length (children self)))%Z ->
  (exists self',
     notified clock k self = Ok self' /\
     children self' = children self /\
     selected_index self' = Some (chain_from k (children self) i)) /\
  (length (children self) <= k ->
     chain_from k (children self) i = chained_selection (children self) i) /\
  auto_advance_target (children self) (chained_selection (children self) i)
  = chained_selection (children self) i.
Proof.
  intros Hsel Hi. split; [|split].
  - revert self i Hsel Hi. induction k as [|k IH]; intros self i Hsel Hi.
    + exists self. repeat split. exact Hsel.
    + destruct (update_step_state_result clock self i Hsel Hi)
        as (self1 & Hrun & Hc & _ & Hs).
      pose proof (auto_advance_target_range (children self) i Hi) as [Hr _].
      destruct (IH self1 (auto_advance_target (children self) i) Hs)
        as (self' & Hrest & Hc' & Hs'); [rewrite Hc; exact Hr|].
      exists self'.
      split; [simpl notified; rewrite Hrun; exact Hrest|]. split; [congruence|].
      rewrite chain_from_step, Hs', Hc. reflexivity.
  - intros Hk. unfold chained_selection.
    assert (Hmore : forall extra fuel j,
              (0 <= j < Z.of_nat (length (children self)))%Z ->
              (Z.of_nat (length (children self)) - j <= Z.of_nat fuel)%Z ->
              chain_from (extra + fuel) (children self) j
              = chain_from fuel (children self) j).
    { intros extra fuel. revert extra. induction fuel as [|fuel IHf]; intros extra j Hj Hf;
        [lia|].
      replace (extra + S fuel) with (S (extra + fuel)) by lia.
      rewrite !chain_from_step.
      destruct (Z.eq_dec (auto_advance_target (children self) j) j) as [Heq|Hne].
      - rewrite Heq, !chain_from_rest by exact Heq. reflexivity.
      - pose proof (auto_advance_target_range (children self) j Hj) as [Hr Hstep].
        apply IHf; lia. }
    replace k with ((k - length (children self)) + length (children self)) by lia.
    apply Hmore; lia.
  - apply chain_from_settles; lia.
Qed.

Lemma auto_advance_completes_witness :
  exists self',
    notified at_rest 2
      (wizard_of [step_in (Member SUCCESS) true; step_in (Member SUCCESS) true;
                  step_in (Member INIT) true] (Some 0%Z)) = Ok self' /\
    selected_index self' = Some 2%Z.
Proof.
  destruct (auto_advance_completes at_rest
              (wizard_of [step_in (Member SUCCESS) true; step_in (Member SUCCESS) true;
                          step_in (Member INIT) true] (Some 0%Z)) 0%Z 2)
    as [(self' & Hrun & _ & Hs) _].
  - reflexivity.
  - simpl. lia.
  - exists self'. split; [exact Hrun | exact Hs].
Defined.
